(** * geminiduck: the artifact lifecycle and rendering pipeline of gemini_bot.py

    A shallow embedding of the text normaliser, the plain-text renderer, the
    word wrapper, the per-user file manager, the paginated-document builder and
    the response dispatcher of [src/gemini_bot.py], with the properties the
    specification states about them. *)

From Stdlib Require Import ZArith NArith Ascii String.
From stdpp Require Import base option list strings gmap pretty.

Local Open Scope N_scope.
Local Open Scope list_scope.

(** * Text

    A Python [str] is a sequence of Unicode code points; [len] counts code
    points.  A character is modelled by its code point. *)

Definition char := N.
Definition str := list char.

Definition TAB : char := 9.
Definition LF : char := 10.
Definition CR : char := 13.
Definition SPACE : char := 32.
Definition HASH : char := 35.
Definition QUOTE : char := 39.
Definition STAR : char := 42.
Definition BACKSLASH : char := 92.
Definition UNDERSCORE : char := 95.
Definition BACKTICK : char := 96.

(** String literals of the source are written as Rocq strings (UTF-8 bytes)
    and decoded to code points. *)
Fixpoint utf8_decode (bs : list N) : str :=
  match bs with
  | [] => []
  | b :: r =>
    if b <? 128 then b :: utf8_decode r
    else if b <? 224 then
      match r with
      | c1 :: r1 => ((b - 192) * 64 + (c1 - 128)) :: utf8_decode r1
      | [] => []
      end
    else if b <? 240 then
      match r with
      | c1 :: c2 :: r2 =>
        ((b - 224) * 4096 + (c1 - 128) * 64 + (c2 - 128)) :: utf8_decode r2
      | _ => []
      end
    else
      match r with
      | c1 :: c2 :: c3 :: r3 =>
        ((b - 240) * 262144 + (c1 - 128) * 4096 + (c2 - 128) * 64 + (c3 - 128))
          :: utf8_decode r3
      | _ => []
      end
  end.

Fixpoint bytes_of_string (s : string) : list N :=
  match s with
  | EmptyString => []
  | String a s' => N_of_ascii a :: bytes_of_string s'
  end.

Definition lit (s : string) : str := utf8_decode (bytes_of_string s).

(** ** [str.replace]

    [s.replace(old, new)] scans [s] from the left and replaces every
    non-overlapping occurrence of [old].  [skip] counts the characters of the
    occurrence just replaced that are still to be passed over. *)

Fixpoint startswith (p s : str) : bool :=
  match p, s with
  | [], _ => true
  | a :: p', b :: s' => (a =? b) && startswith p' s'
  | _ :: _, [] => false
  end.

Fixpoint replace_from (old new : str) (skip : nat) (s : str) : str :=
  match s with
  | [] => []
  | c :: s' =>
    match skip with
    | S k => replace_from old new k s'
    | O =>
      if startswith old s
      then new ++ replace_from old new (length old - 1) s'
      else c :: replace_from old new 0 s'
    end
  end.

(** With an empty [old], Python inserts [new] before every character and at
    the end. *)
Definition replace (old new s : str) : str :=
  match old with
  | [] => new ++ flat_map (fun c => c :: new) s
  | _ :: _ => replace_from old new 0 s
  end.

(** * MarkdownProcessor *)

(** The [replacements] dict of [clean_markdown], in insertion order (the order
    in which [dict.items()] yields it). *)
Definition replacements : list (str * str) :=
  [ ([BACKTICK], [QUOTE]);
    ([BACKTICK; BACKTICK; BACKTICK], [BACKTICK; BACKTICK; BACKTICK; LF]);
    ([TAB], [SPACE; SPACE; SPACE; SPACE]) ].

Definition clean_markdown (text : str) : str :=
  let text := replace [CR] [LF] (replace [CR; LF] [LF] text) in
  fold_left (fun text '(old, new) => replace old new text) replacements text.

(** * ResponseHandler._prepare_text *)

Definition _prepare_text (text : str) : str :=
  replace [BACKTICK] [BACKSLASH; BACKTICK]
    (replace [STAR] [BACKSLASH; STAR]
       (replace [UNDERSCORE] [BACKSLASH; UNDERSCORE] text)).

(** * PDFGenerator._wrap_text *)

(** [s.split(sep)] for a one-character separator: the pieces between the
    separators, empty pieces included; never the empty list. *)
Fixpoint split_on (sep : char) (s : str) : list str :=
  match s with
  | [] => [[]]
  | c :: s' =>
    if c =? sep then [] :: split_on sep s'
    else match split_on sep s' with
         | w :: ws => (c :: w) :: ws
         | [] => [[c]]
         end
  end.

(** [sep.join(ws)]. *)
Fixpoint join (sep : str) (ws : list str) : str :=
  match ws with
  | [] => []
  | w :: ws' =>
    match ws' with
    | [] => w
    | _ :: _ => w ++ sep ++ join sep ws'
    end
  end.

(** [len] of a string, a Python int. *)
Definition len {A} (l : list A) : Z := Z.of_nat (length l).

(** [range(start, stop, step)]; [None] is the [ValueError] that a zero step
    raises. *)
Definition py_range (start stop step : Z) : option (list Z) :=
  if (step =? 0)%Z then None
  else
    let n := if (0 <? step)%Z
             then ((stop - start + step - 1) / step)%Z
             else ((start - stop - step - 1) / (- step))%Z in
    Some (map (fun k => (start + Z.of_nat k * step)%Z) (seq 0 (Z.to_nat n))).

(** [s[i:j]]: a negative index counts from the end, and both ends are clipped
    to the string. *)
Definition slice_index (n i : Z) : Z :=
  if (i <? 0)%Z then Z.max 0 (i + n) else Z.min i n.

Definition slice (s : str) (i j : Z) : str :=
  let a := slice_index (len s) i in
  let b := slice_index (len s) j in
  firstn (Z.to_nat (b - a)) (skipn (Z.to_nat a) s).

(** The local variables of the loop over the words of one paragraph. *)
Record wrap_state := WrapState {
  lines : list str;
  current_line : list str;
  current_length : Z
}.

(** The hard split of a word that is too long:
    [word[i:i + max_width] for i in range(0, word_length, max_width)]. *)
Definition hard_split (max_width : Z) (word : str) : option (list str) :=
  match py_range 0 (len word) max_width with
  | None => None
  | Some starts => Some (map (fun i => slice word i (i + max_width)) starts)
  end.

(** One iteration of [for word in words]. *)
Definition wrap_word (max_width : Z) (st : wrap_state) (word : str)
  : option wrap_state :=
  let word_length := len word in
  if (max_width <? word_length)%Z then
    let st :=
      match current_line st with
      | [] => st
      | _ :: _ => WrapState (lines st ++ [join [SPACE] (current_line st)]) [] 0
      end in
    match hard_split max_width word with
    | None => None
    | Some fragments =>
      Some (WrapState (lines st ++ fragments)
                      (current_line st) (current_length st))
    end
  else if (max_width <? current_length st + word_length + len (current_line st))%Z
  then Some (WrapState (lines st ++ [join [SPACE] (current_line st)])
                       [word] word_length)
  else Some (WrapState (lines st) (current_line st ++ [word])
                       (current_length st + word_length)).

(** A loop whose body may raise. *)
Fixpoint fold_raise {S A} (body : S -> A -> option S) (l : list A) (s : S)
  : option S :=
  match l with
  | [] => Some s
  | a :: l' =>
    match body s a with
    | Some s' => fold_raise body l' s'
    | None => None
    end
  end.

(** One iteration of [for paragraph in text.split('\n')]. *)
Definition wrap_paragraph (max_width : Z) (lines0 : list str) (paragraph : str)
  : option (list str) :=
  match fold_raise (wrap_word max_width) (split_on SPACE paragraph)
                   (WrapState lines0 [] 0) with
  | Some st =>
    match current_line st with
    | [] => Some (lines st)
    | _ :: _ => Some (lines st ++ [join [SPACE] (current_line st)])
    end
  | None => None
  end.

Definition _wrap_text (text : str) (max_width : Z) : option (list str) :=
  fold_raise (wrap_paragraph max_width) (split_on LF text) [].

(** The words of a text: the pieces between its line breaks and spaces. *)
Definition words (text : str) : list str :=
  flat_map (split_on SPACE) (split_on LF text).

(** The total number of characters of a list of words. *)
Definition total_len (ws : list str) : Z := len (concat ws).

(** What the hard split makes of a word: the word itself when it fits. *)
Definition fragments (max_width : Z) (word : str) : list str :=
  if (max_width <? len word)%Z
  then default [] (hard_split max_width word)
  else [word].

(** The loop invariant of [_wrap_text]: [done] are the words consumed so far. *)
Definition wrap_inv (max_width : Z) (done : list str) (st : wrap_state) : Prop :=
  Forall (fun l => (len l <= max_width)%Z) (lines st)
  /\ Forall (fun w => ~ In SPACE w) (current_line st)
  /\ current_length st = total_len (current_line st)
  /\ (current_line st <> [] ->
      (total_len (current_line st) + len (current_line st) <= max_width + 1)%Z)
  /\ flat_map (split_on SPACE) (lines st) ++ current_line st
     = flat_map (fragments max_width) done.

(** The text with every underscore, asterisk and backtick preceded by a
    backslash, as the specification words it; [_prepare_text] is compared with
    it below. *)
Definition is_markdown_special (c : char) : bool :=
  (c =? UNDERSCORE) || (c =? STAR) || (c =? BACKTICK).

Definition backslash_escaped (text : str) : str :=
  flat_map (fun c => if is_markdown_special c then [BACKSLASH; c] else [c]) text.

(** * Regular expressions ([re.sub])

    The patterns of [markdown_to_plain_text] are sequences of single
    characters or character classes, each taken once or under a greedy or lazy
    star, with one capture group and the line anchor.  They are compiled with
    [re.MULTILINE | re.DOTALL]: [^] matches at the start of the text and after
    every line feed, and [.] matches every character. *)

(** The classes [\s] and [\d] of a [str] pattern follow the interpreter's
    Unicode database.  On ASCII they are fixed; beyond ASCII the database is
    not part of the repository and is a parameter. *)
Record unicode_db := UnicodeDb {
  db_space : char -> bool;
  db_decimal : char -> bool
}.

Definition is_space (db : unicode_db) (c : char) : bool :=
  if c <? 128
  then ((9 <=? c) && (c <=? 13)) || ((28 <=? c) && (c <=? 32))
  else db_space db c.

Definition is_decimal (db : unicode_db) (c : char) : bool :=
  if c <? 128 then (48 <=? c) && (c <=? 57) else db_decimal db c.

Inductive cls :=
| Any                (* [.] under DOTALL *)
| Chr (c : char)     (* a literal character *)
| Space              (* [\s] *)
| Digit.             (* [\d] *)

Definition cls_match (db : unicode_db) (k : cls) (c : char) : bool :=
  match k with
  | Any => true
  | Chr a => c =? a
  | Space => is_space db c
  | Digit => is_decimal db c
  end.

Inductive item :=
| One (k : cls)        (* [k] *)
| Star (k : cls)       (* [k*], greedy *)
| LazyStar (k : cls)   (* [k*?] *)
| Bol                  (* [^] *)
| GroupOpen            (* [(] of group 1 *)
| GroupClose.          (* [)] of group 1 *)

Definition regex := list item.

(** Group 1 while a match is being tried. *)
Record capture := Capture { recording : bool; group1 : str }.

Definition consume (x : char) (cap : capture) : capture :=
  if recording cap then Capture true (group1 cap ++ [x]) else cap.

(** A successful match: the text of group 1, the text behind the match, and
    whether the match ends at the start of a line. *)
Record matched := Matched { m_group1 : str; m_rest : str; m_bol : bool }.

(** The backtracking matcher, anchored at the head of [s]; [bol] tells whether
    [s] starts a line.  A greedy star first tries one more character, a lazy
    star first tries the rest of the pattern. *)
Fixpoint re_match (db : unicode_db) (r : regex) (bol : bool) (cap : capture)
                  (s : str) {struct r} : option matched :=
  match r with
  | [] => Some (Matched (group1 cap) s bol)
  | One k :: r' =>
    match s with
    | x :: s' =>
      if cls_match db k x then re_match db r' (x =? LF) (consume x cap) s'
      else None
    | [] => None
    end
  | Star k :: r' =>
    (fix star (bol : bool) (cap : capture) (s : str) {struct s} :=
       match s with
       | x :: s' =>
         if cls_match db k x then
           match star (x =? LF) (consume x cap) s' with
           | Some m => Some m
           | None => re_match db r' bol cap s
           end
         else re_match db r' bol cap s
       | [] => re_match db r' bol cap s
       end) bol cap s
  | LazyStar k :: r' =>
    (fix star (bol : bool) (cap : capture) (s : str) {struct s} :=
       match re_match db r' bol cap s with
       | Some m => Some m
       | None =>
         match s with
         | x :: s' =>
           if cls_match db k x then star (x =? LF) (consume x cap) s' else None
         | [] => None
         end
       end) bol cap s
  | Bol :: r' => if bol then re_match db r' bol cap s else None
  | GroupOpen :: r' => re_match db r' bol (Capture true []) s
  | GroupClose :: r' => re_match db r' bol (Capture false (group1 cap)) s
  end.

(** The replacement templates of the source: a literal text, or [r'\1']. *)
Inductive template :=
| Literal (s : str)
| Group1.

Definition expand (t : template) (m : matched) : str :=
  match t with
  | Literal s => s
  | Group1 => m_group1 m
  end.

(** [re.sub]: the text is scanned from the left; at every position not inside
    the previous match the pattern is tried, a match is replaced by the
    expanded template and the scan resumes behind it.  [skip] counts the
    characters of the last match still to be passed over.  After an empty
    match one character is copied. *)
Fixpoint sub_from (db : unicode_db) (r : regex) (repl : template)
                  (skip : nat) (bol : bool) (s : str) : str :=
  match s with
  | [] =>
    match skip, re_match db r bol (Capture false []) [] with
    | O, Some m => expand repl m
    | _, _ => []
    end
  | x :: s' =>
    match skip with
    | S k => sub_from db r repl k (x =? LF) s'
    | O =>
      match re_match db r bol (Capture false []) s with
      | Some m =>
        expand repl m ++
        match (length s - length (m_rest m))%nat with
        | O => x :: sub_from db r repl 0 (x =? LF) s'
        | S n => sub_from db r repl n (x =? LF) s'
        end
      | None => x :: sub_from db r repl 0 (x =? LF) s'
      end
    end
  end.

Definition re_sub (db : unicode_db) (r : regex) (repl : template) (s : str)
  : str :=
  sub_from db r repl 0 true s.

Definition BULLET : char := 8226.

(** The [patterns] list of [markdown_to_plain_text]. *)
Definition heading_pattern : regex :=          (* #+\s* *)
  [One (Chr HASH); Star (Chr HASH); Star Space].
Definition bold_pattern : regex :=             (* \*\*(.*?)\*\* *)
  [One (Chr STAR); One (Chr STAR); GroupOpen; LazyStar Any; GroupClose;
   One (Chr STAR); One (Chr STAR)].
Definition italic_pattern : regex :=           (* \*(.*?)\* *)
  [One (Chr STAR); GroupOpen; LazyStar Any; GroupClose; One (Chr STAR)].
Definition inline_code_pattern : regex :=      (* `(.*?)` *)
  [One (Chr BACKTICK); GroupOpen; LazyStar Any; GroupClose; One (Chr BACKTICK)].
Definition code_block_pattern : regex :=       (* ```.*?\n(.*?)``` *)
  [One (Chr BACKTICK); One (Chr BACKTICK); One (Chr BACKTICK); LazyStar Any;
   One (Chr LF); GroupOpen; LazyStar Any; GroupClose;
   One (Chr BACKTICK); One (Chr BACKTICK); One (Chr BACKTICK)].
Definition image_pattern : regex :=            (* !\[.*?\]\(.*?\) *)
  [One (Chr 33); One (Chr 91); LazyStar Any; One (Chr 93);
   One (Chr 40); LazyStar Any; One (Chr 41)].
Definition link_pattern : regex :=             (* \[(.*?)\]\(.*?\) *)
  [One (Chr 91); GroupOpen; LazyStar Any; GroupClose; One (Chr 93);
   One (Chr 40); LazyStar Any; One (Chr 41)].
Definition dash_item_pattern : regex :=        (* ^\s*-\s* *)
  [Bol; Star Space; One (Chr 45); Star Space].
Definition star_item_pattern : regex :=        (* ^\s*\*\s* *)
  [Bol; Star Space; One (Chr STAR); Star Space].
Definition numbered_item_pattern : regex :=    (* ^\s*\d+\.\s* *)
  [Bol; Star Space; One Digit; Star Digit; One (Chr 46); Star Space].

Definition patterns : list (regex * template) :=
  [ (heading_pattern, Literal []);
    (bold_pattern, Group1);
    (italic_pattern, Group1);
    (inline_code_pattern, Group1);
    (code_block_pattern, Group1);
    (image_pattern, Literal []);
    (link_pattern, Group1);
    (dash_item_pattern, Literal [BULLET; SPACE]);
    (star_item_pattern, Literal [BULLET; SPACE]);
    (numbered_item_pattern, Literal []) ].

Definition markdown_to_plain_text (db : unicode_db) (md_text : str) : str :=
  fold_left (fun text '(pattern, replacement) => re_sub db pattern replacement text)
            patterns md_text.

(** A database with no whitespace and no digit beyond ASCII, for examples in
    which a character beyond ASCII (the bullet) is classified. *)
Definition ascii_classes : unicode_db := UnicodeDb (fun _ => false) (fun _ => false).

(** * Dates and times

    A naive local [datetime.datetime], as [datetime.now()] and
    [datetime.fromtimestamp] return it. *)
Record datetime := DateTime {
  year : Z; month : Z; day : Z;
  hour : Z; minute : Z; second : Z; microsecond : Z
}.


(** [datetime.toordinal]: the days before the year, the days before the month,
    and the day. *)
Definition is_leap (y : Z) : bool :=
  ((y mod 4 =? 0) && (negb (y mod 100 =? 0) || (y mod 400 =? 0)))%Z.

Definition days_before_year (y : Z) : Z :=
  let y := (y - 1)%Z in (y * 365 + y / 4 - y / 100 + y / 400)%Z.

Definition days_before_month (y m : Z) : Z :=
  (nth (Z.to_nat (m - 1)) [0; 31; 59; 90; 120; 151; 181; 212; 243; 273; 304; 334] 0
   + (if (2 <? m) && is_leap y then 1 else 0))%Z.

Definition toordinal (d : datetime) : Z :=
  (days_before_year (year d) + days_before_month (year d) (month d) + day d)%Z.

(** The position of a datetime on the local time line, in microseconds. *)
Definition to_microseconds (d : datetime) : Z :=
  (((toordinal d * 86400 + hour d * 3600 + minute d * 60 + second d) * 1000000)
   + microsecond d)%Z.

(** [(a - b).total_seconds() > seconds] for an integer number of seconds.
    [total_seconds] divides the microseconds of the difference by [10**6] with
    correct rounding; for the limits the source passes (3600, [hours * 3600])
    the comparison is that of the exact quotient. *)
Definition older_than (a b : datetime) (seconds : Z) : bool :=
  (seconds * 1000000 <? to_microseconds a - to_microseconds b)%Z.

(** ** [strftime] *)

Definition digit (n : Z) : char := Z.to_N (48 + n mod 10).

(** The decimal digits of [n] on [width] places, zero-padded: the [%0wd] of a
    field that fits its width, as every field of a valid datetime does. *)
Fixpoint zero_padded (width : nat) (n : Z) : str :=
  match width with
  | O => []
  | S w => zero_padded w (n / 10) ++ [digit n]
  end.

(** [d.strftime('%Y%m%d_%H%M%S')] *)
Definition strftime_seconds (d : datetime) : str :=
  zero_padded 4 (year d) ++ zero_padded 2 (month d) ++ zero_padded 2 (day d)
  ++ [UNDERSCORE]
  ++ zero_padded 2 (hour d) ++ zero_padded 2 (minute d) ++ zero_padded 2 (second d).

(** [d.strftime('%Y%m%d_%H%M%S_%f')] *)
Definition strftime_micro (d : datetime) : str :=
  strftime_seconds d ++ [UNDERSCORE] ++ zero_padded 6 (microsecond d).

(** [d.strftime('%Y-%m-%d %H:%M:%S')] *)
Definition strftime_readable (d : datetime) : str :=
  zero_padded 4 (year d) ++ [45] ++ zero_padded 2 (month d) ++ [45]
  ++ zero_padded 2 (day d) ++ [SPACE]
  ++ zero_padded 2 (hour d) ++ [58] ++ zero_padded 2 (minute d) ++ [58]
  ++ zero_padded 2 (second d).

(** [str(n)] for an int. *)
Definition str_of_int (n : Z) : str := bytes_of_string (pretty n).

(** * The file system, the clock and the transport

    A path is the list of its components below the root.  A regular file
    carries its modification time, as [datetime.fromtimestamp(st_mtime)] reads
    it, and its content. *)

Abbreviation path := (list (list N)).

(** The commands issued on an [FPDF] object. *)
Inductive pdf_op :=
| AddPage
| SetAutoPageBreak (margin : Z)
| AddFont (family style : str) (fname : path)
| SetFont (family style : str) (size : Z)
| SetFontSize (size : Z)
| Cell (w h : Z) (text : str) (border : str) (align : str)
| Indent (w : Z)
| Ln (h : Z)
| SetXLeftMargin
| MultiCell (w h : Z) (text : str).

Inductive file_data :=
| TextData (content : str)
| PdfData (document : list pdf_op).

Inductive node :=
| Dir
| File (mtime : datetime) (data : file_data).

Inductive exn :=
| FileNotFoundError
| FileExistsError
| NotADirectoryError
| IsADirectoryError
| ValueError
| KeyError.

(** What is handed to the messaging transport. *)
Record button := Button { label : str; callback_data : str }.

Inductive event :=
| SendMessage (chat_id : Z) (text : str) (parse_mode : option str)
              (reply_markup : option (list (list button)))
| Sleep (milliseconds : Z).

(** The world a handler runs in: the file system, the clock (the [n]-th
    reading of the local time is [clock n]), the directory
    [tempfile.gettempdir()] returns, the interpreter's Unicode database, the
    session's [context.user_data] and the messages handed to the transport so
    far. *)
Record world := World {
  files : gmap path node;
  clock : nat -> datetime;
  ticks : nat;
  tmpdir : path;
  unicode : unicode_db;
  user_data : gmap string str;
  outbox : list event
}.

Definition with_files (fs : gmap path node) (w : world) : world :=
  World fs (clock w) (ticks w) (tmpdir w) (unicode w) (user_data w) (outbox w).

(** ** Computations that change the world and may raise *)

Inductive outcome (A : Type) :=
| Return (a : A)
| Raise (e : exn).
Arguments Return {A} a.
Arguments Raise {A} e.

Definition M (A : Type) : Type := world -> outcome A * world.

Definition ret {A} (a : A) : M A := fun w => (Return a, w).

Definition bind {A B} (m : M A) (k : A -> M B) : M B :=
  fun w =>
    match m w with
    | (Return a, w') => k a w'
    | (Raise e, w') => (Raise e, w')
    end.

Definition raise {A} (e : exn) : M A := fun w => (Raise e, w).

(** [try: body / except Exception: handler] *)
Definition try_except {A} (body : M A) (handler : exn -> M A) : M A :=
  fun w =>
    match body w with
    | (Return a, w') => (Return a, w')
    | (Raise e, w') => handler e w'
    end.

Notation "'let*' x ':=' m 'in' k" := (bind m (fun x => k))
  (at level 10, x name, m at level 100, k at level 200).
Notation "m ';;' k" := (bind m (fun _ => k))
  (at level 100, k at level 200, right associativity).

(** [for x in l: body x] *)
Fixpoint for_each {A} (l : list A) (body : A -> M unit) : M unit :=
  match l with
  | [] => ret tt
  | x :: l' => body x ;; for_each l' body
  end.

(** [datetime.datetime.now()] *)
Definition now : M datetime :=
  fun w => (Return (clock w (ticks w)),
            World (files w) (clock w) (S (ticks w)) (tmpdir w) (unicode w)
                  (user_data w) (outbox w)).

(** ** Paths *)

Definition parent (p : path) : path := removelast p.

(** The root is a directory. *)
Definition lookup_node (fs : gmap path node) (p : path) : option node :=
  match p with
  | [] => Some Dir
  | _ :: _ => fs !! p
  end.

(** [p.exists()] *)
Definition path_exists (p : path) : M bool :=
  fun w => (Return (bool_decide (is_Some (lookup_node (files w) p))), w).

(** [p.is_file()] *)
Definition is_file (p : path) : M bool :=
  fun w => (Return (match lookup_node (files w) p with
                    | Some (File _ _) => true
                    | _ => false
                    end), w).

(** [p.mkdir(exist_ok=True)]: the parent must be a directory; an existing
    directory is left alone, an existing file raises. *)
Definition mkdir (p : path) : M unit :=
  fun w =>
    match lookup_node (files w) p with
    | Some Dir => (Return tt, w)
    | Some (File _ _) => (Raise FileExistsError, w)
    | None =>
      match lookup_node (files w) (parent p) with
      | Some Dir => (Return tt, with_files (<[p := Dir]> (files w)) w)
      | Some (File _ _) => (Raise NotADirectoryError, w)
      | None => (Raise FileNotFoundError, w)
      end
    end.

(** [shutil.rmtree(p)]: removes the directory and everything below it. *)
Definition rmtree (p : path) : M unit :=
  fun w =>
    match lookup_node (files w) p with
    | Some Dir =>
      (Return tt,
       with_files (filter (fun kv => ~ p `prefix_of` kv.1) (files w)) w)
    | Some (File _ _) => (Raise NotADirectoryError, w)
    | None => (Raise FileNotFoundError, w)
    end.

(** [directory.glob("*")]: the entries of the directory. *)
Definition glob_star (directory : path) : M (list path) :=
  fun w =>
    (Return (match lookup_node (files w) directory with
             | Some Dir =>
               filter (fun q => q <> [] /\ parent q = directory)
                      (map_to_list (files w)).*1
             | _ => []
             end), w).

(** [datetime.fromtimestamp(p.stat().st_mtime)].  The source reads it for
    regular files only; no time is kept for a directory, whose reading is
    the epoch. *)
Definition epoch : datetime := DateTime 1970 1 1 0 0 0 0.

Definition stat_mtime (p : path) : M datetime :=
  fun w =>
    match lookup_node (files w) p with
    | Some (File mtime _) => (Return mtime, w)
    | Some Dir => (Return epoch, w)
    | None => (Raise FileNotFoundError, w)
    end.

(** [p.unlink()] *)
Definition unlink (p : path) : M unit :=
  fun w =>
    match lookup_node (files w) p with
    | Some (File _ _) => (Return tt, with_files (delete p (files w)) w)
    | Some Dir => (Raise IsADirectoryError, w)
    | None => (Raise FileNotFoundError, w)
    end.

(** [with open(p, 'w') as f: f.write(content)], and [pdf.output(p)]: the file
    is created or replaced in an existing directory and stamped with the
    time. *)
Definition write_file (p : path) (data : file_data) : M unit :=
  fun w =>
    match lookup_node (files w) p with
    | Some Dir => (Raise IsADirectoryError, w)
    | _ =>
      match lookup_node (files w) (parent p) with
      | Some Dir =>
        (Return tt,
         World (<[p := File (clock w (ticks w)) data]> (files w))
               (clock w) (S (ticks w)) (tmpdir w) (unicode w)
               (user_data w) (outbox w))
      | Some (File _ _) => (Raise NotADirectoryError, w)
      | None => (Raise FileNotFoundError, w)
      end
    end.

(** * FileManager

    [p / name] adds one component: the names the source builds (directory
    names, prefixes, timestamps, extensions) hold no path separator. *)

Record FileManager := { base_dir : path }.

(** [FileManager.__init__] *)
Definition FileManager_init : M FileManager :=
  fun w =>
    let base_dir := tmpdir w ++ [lit "geminiduck"] in
    (mkdir base_dir ;; ret {| base_dir := base_dir |}) w.

Definition user_dir_of (self : FileManager) (user_id : Z) : path :=
  base_dir self ++ [lit "user_" ++ str_of_int user_id].

Definition get_user_base_dir (self : FileManager) (user_id : Z) : M path :=
  let user_dir := user_dir_of self user_id in
  mkdir user_dir ;;
  ret user_dir.

(** The body of the loop of [cleanup_dir]. *)
Definition sweep_entry (now_ : datetime) (max_age_seconds : Z)
                       (file_path : path) : M unit :=
  let* regular := is_file file_path in
  if regular then
    let* mtime := stat_mtime file_path in
    if older_than now_ mtime max_age_seconds
    then unlink file_path
    else ret tt
  else ret tt.

Definition cleanup_dir (directory : path) (max_age_seconds : Z) : M unit :=
  try_except
    (let* now_ := now in
     let* entries := glob_star directory in
     for_each entries (sweep_entry now_ max_age_seconds))
    (fun _ => ret tt).

Definition get_user_temp_dir (self : FileManager) (user_id : Z) : M path :=
  let* user_dir := get_user_base_dir self user_id in
  let temp_dir := user_dir ++ [lit "temp"] in
  mkdir temp_dir ;;
  cleanup_dir temp_dir 3600 ;;
  ret temp_dir.

Definition get_user_history_dir (self : FileManager) (user_id : Z) : M path :=
  let* user_dir := get_user_base_dir self user_id in
  let history_dir := user_dir ++ [lit "history"] in
  mkdir history_dir ;;
  ret history_dir.

Definition temp_file_name (prefix extension : str) (d : datetime) : str :=
  let timestamp := strftime_micro d in
  let filename := prefix ++ timestamp in
  match extension with
  | [] => filename
  | _ :: _ => filename ++ lit "." ++ extension
  end.

Definition create_temp_file (self : FileManager) (user_id : Z)
                            (prefix extension : str) : M path :=
  let* temp_dir := get_user_temp_dir self user_id in
  let* d := now in
  ret (temp_dir ++ [temp_file_name prefix extension d]).

Definition save_markdown (self : FileManager) (user_id : Z) (content : str)
                         (filename : str) : M path :=
  let* md_file :=
    create_temp_file self user_id (lit "md_" ++ filename ++ lit "_") (lit "md") in
  write_file md_file (TextData content) ;;
  ret md_file.

Definition cleanup_user_files (self : FileManager) (user_id : Z) : M unit :=
  try_except
    (let* user_dir := get_user_base_dir self user_id in
     let* present := path_exists user_dir in
     if present then
       let temp_dir := user_dir ++ [lit "temp"] in
       let* temp_present := path_exists temp_dir in
       (if temp_present then rmtree temp_dir else ret tt) ;;
       mkdir temp_dir
     else ret tt)
    (fun _ => ret tt).

(** Whether the sweep deletes a path: a regular file older than the limit. *)
Definition expired (fs : gmap path node) (now_ : datetime) (max_age_seconds : Z)
                   (p : path) : bool :=
  match lookup_node fs p with
  | Some (File mtime _) => older_than now_ mtime max_age_seconds
  | _ => false
  end.



Definition is_directory (fs : gmap path node) (p : path) : bool :=
  match lookup_node fs p with
  | Some Dir => true
  | _ => false
  end.


(** A small installation used in examples: the directories of user 7 under
    [/tmp/geminiduck], and one artifact in the working area stamped
    2024-01-01 12:00:00. *)
Definition example_base : path := [lit "tmp"; lit "geminiduck"].
Definition example_user : path := example_base ++ [lit "user_7"].
Definition example_temp : path := example_user ++ [lit "temp"].
Definition example_history : path := example_user ++ [lit "history"].
Definition example_artifact : path :=
  example_temp ++ [lit "pdf_20240101_120000_000000.pdf"].
Definition example_record : path :=
  example_history ++ [lit "session_20240101_115900.txt"].
Definition example_T0 : datetime := DateTime 2024 1 1 12 0 0 0.

Definition example_files : gmap path node :=
  <[example_record := File (DateTime 2024 1 1 11 59 0 0) (TextData (lit "q"))]>
  (<[example_artifact := File example_T0 (PdfData [AddPage])]>
   (<[example_history := Dir]>
    (<[example_temp := Dir]>
     (<[example_user := Dir]>
      (<[example_base := Dir]>
       (<[[lit "tmp"] := Dir]> ∅)))))).

(** The example installation with a clock that always reads [d]. *)
Definition example_world (d : datetime) : world :=
  World example_files (fun _ => d) 0 [lit "tmp"] ascii_classes ∅ [].

(** Every entry of the file system lies in a directory. *)
Definition tree_closed (fs : gmap path node) : Prop :=
  map_Forall (fun p _ => is_directory fs (parent p) = true) fs.

Definition not_a_file (fs : gmap path node) (p : path) : Prop :=
  match fs !! p with
  | Some (File _ _) => False
  | _ => True
  end.

Definition temp_dir_of (self : FileManager) (user_id : Z) : path :=
  user_dir_of self user_id ++ [lit "temp"].

Definition history_dir_of (self : FileManager) (user_id : Z) : path :=
  user_dir_of self user_id ++ [lit "history"].

Definition example_manager : FileManager := {| base_dir := example_base |}.

(** The example installation with an empty working area. *)
Definition example_clean_world (clock : nat -> datetime) (ticks : nat) : world :=
  World (delete example_artifact example_files) clock ticks [lit "tmp"]
        ascii_classes ∅ [].


(** * PDFGenerator *)

Definition font_regular : path :=
  [lit "usr"; lit "share"; lit "fonts"; lit "truetype"; lit "dejavu";
   lit "DejaVuSans.ttf"].
Definition font_bold : path :=
  [lit "usr"; lit "share"; lit "fonts"; lit "truetype"; lit "dejavu";
   lit "DejaVuSans-Bold.ttf"].

(** [pdf.add_font(family, style, fname)] raises [FileNotFoundError] when the
    font file is missing. *)
Definition add_font (pdf : list pdf_op) (family style : str) (fname : path)
  : M (list pdf_op) :=
  let* present := is_file fname in
  if present then ret (pdf ++ [AddFont family style fname])
  else raise FileNotFoundError.

(** A [ValueError] raised by a pure computation. *)
Definition or_value_error {A} (o : option A) : M A :=
  match o with
  | Some a => ret a
  | None => raise ValueError
  end.

Definition get_unicode : M unicode_db := fun w => (Return (unicode w), w).

(** The commands that render one line of the answer. *)
Definition answer_line (line : str) : list pdf_op :=
  if startswith [BULLET; SPACE] line || startswith (lit "- ") line
  then [Indent 10; SetXLeftMargin; MultiCell 0 8 (drop 2 line)]
  else [SetXLeftMargin; MultiCell 0 8 line].

Definition create_pdf_from_markdown (md_text : str) (user_id : Z) (query : str)
  : M (option path) :=
  try_except
    (let* file_manager := FileManager_init in
     let* md_file := save_markdown file_manager user_id md_text (lit "source") in
     let* db := get_unicode in
     let plain_text := markdown_to_plain_text db md_text in
     let* pdf_file := create_temp_file file_manager user_id (lit "pdf_") (lit "pdf") in
     let pdf := [AddPage; SetAutoPageBreak 15] in
     let* pdf := add_font pdf (lit "DejaVu") [] font_regular in
     let* pdf := add_font pdf (lit "DejaVu") (lit "B") font_bold in
     let pdf := pdf ++ [SetFont (lit "DejaVu") [] 12;
                        SetFont (lit "DejaVu") [] 12;
                        SetFontSize 16;
                        Cell 200 10 (lit "GeminiDuck Bot") [] (lit "C");
                        SetFontSize 10] in
     let* generated := now in
     let pdf := pdf ++ [Cell 200 8 (lit "Generated: " ++ strftime_readable generated) [] [];
                        Cell 200 8 (lit "User ID: " ++ str_of_int user_id) [] [];
                        Ln 5;
                        Cell 200 1 [] (lit "T") [];
                        Ln 10] in
     let* pdf :=
       match query with
       | [] => ret pdf
       | _ :: _ =>
         let pdf := pdf ++ [SetFont (lit "DejaVu") (lit "B") 12;
                            Cell 200 10 (lit "Question:") [] [];
                            SetFont (lit "DejaVu") [] 10] in
         let* query_lines := or_value_error (_wrap_text (take 300 query) 80) in
         ret (pdf ++ flat_map (fun line => [SetXLeftMargin; MultiCell 0 8 line])
                              query_lines
                  ++ [Ln 5])
       end in
     let pdf := pdf ++ [SetFont (lit "DejaVu") (lit "B") 12;
                        Cell 200 10 (lit "Answer:") [] [];
                        SetFont (lit "DejaVu") [] 10] in
     let* lines := or_value_error (_wrap_text plain_text 80) in
     let max_lines := 200%nat in
     let pdf := pdf ++ flat_map answer_line (take max_lines lines) in
     let pdf :=
       if (Z.of_nat max_lines <? len lines)%Z
       then pdf ++ [SetXLeftMargin;
                    MultiCell 0 8 ([LF] ++ lit "[Document truncated. Full text has "
                                        ++ str_of_int (len lines) ++ lit " lines]")]
       else pdf in
     write_file pdf_file (PdfData pdf) ;;
     let* md_present := path_exists md_file in
     (if md_present then unlink md_file else ret tt) ;;
     let* _ := stat_mtime pdf_file in
     ret (Some pdf_file))
    (fun _ => ret None).

(** * ResponseHandler *)

Record ResponseHandler := { file_manager : FileManager }.

Definition ResponseHandler_init : M ResponseHandler :=
  let* file_manager := FileManager_init in
  ret {| file_manager := file_manager |}.

Definition MAX_TEXT_RESPONSE : Z := 500.
Definition MAX_TOTAL_CHARS : Z := 6000.

(** [context.user_data[key] = value] *)
Definition set_user_data (key : string) (value : str) : M unit :=
  fun w => (Return tt,
            World (files w) (clock w) (ticks w) (tmpdir w) (unicode w)
                  (<[key := value]> (user_data w)) (outbox w)).

(** [context.user_data[key]] *)
Definition get_user_data (key : string) : M str :=
  fun w => match user_data w !! key with
           | Some value => (Return value, w)
           | None => (Raise KeyError, w)
           end.

(** [await context.bot.send_message(...)] *)
Definition send_message (chat_id : Z) (text : str) (parse_mode : option str)
                        (reply_markup : option (list (list button))) : M unit :=
  fun w => (Return tt,
            World (files w) (clock w) (ticks w) (tmpdir w) (unicode w)
                  (user_data w)
                  (outbox w ++ [SendMessage chat_id text parse_mode reply_markup])).

(** [await asyncio.sleep(...)] *)
Definition sleep (milliseconds : Z) : M unit :=
  fun w => (Return tt,
            World (files w) (clock w) (ticks w) (tmpdir w) (unicode w)
                  (user_data w) (outbox w ++ [Sleep milliseconds])).

Definition _save_to_history (self : ResponseHandler) (user_id : Z)
                            (query response : str) : M unit :=
  try_except
    (let* history_dir := get_user_history_dir (file_manager self) user_id in
     let* d := now in
     let timestamp := strftime_seconds d in
     let history_file := history_dir ++ [lit "session_" ++ timestamp ++ lit ".txt"] in
     write_file history_file
       (TextData (lit "Вопрос (" ++ timestamp ++ lit "):" ++ [LF] ++ query ++ [LF; LF]
                  ++ lit "Ответ:" ++ [LF] ++ response ++ [LF]
                  ++ repeat 45 50 ++ [LF])))
    (fun _ => ret tt).

(** [enumerate(l)] *)
Definition enumerate {A} (l : list A) : list (nat * A) :=
  combine (seq 0 (length l)) l.

Definition _send_text_chunks (chat_id : Z) (text : str) : M unit :=
  let* starts := or_value_error (py_range 0 (len text) 1000) in
  let parts := map (fun i => slice text i (i + 1000)%Z) starts in
  for_each (enumerate (take 5 parts)) (fun '(i, part) =>
    let safe_part := _prepare_text part in
    send_message chat_id safe_part (Some (lit "Markdown")) None ;;
    if (Z.of_nat i <? len (take 5 parts) - 1)%Z then sleep 500 else ret tt).

Definition format_keyboard : list (list button) :=
  [ [ Button (lit "📄 HTML-документ") (lit "format_html");
      Button (lit "📊 PDF-документ") (lit "format_pdf") ];
    [ Button (lit "🗑️ Очистить историю") (lit "clear_history") ] ].

(** The text of the offer, for an answer of [n] characters. *)
Definition offer_text (n : Z) : str :=
  lit "✅ **Ответ готов!**" ++ [LF; LF]
  ++ lit "Длина ответа: " ++ str_of_int n ++ lit " символов" ++ [LF]
  ++ lit "История сохранена в файл" ++ [LF; LF]
  ++ lit "**Выберите формат для просмотра:**" ++ [LF]
  ++ lit "• HTML-документ — красивое оформление в браузере" ++ [LF]
  ++ lit "• PDF-документ — удобно для печати и сохранения" ++ [LF; LF]
  ++ lit "_Автоматическая очистка временных файлов каждые 24 часа_".

Definition _offer_format_choice (chat_id : Z) : M unit :=
  let* last_response := get_user_data "last_response" in
  send_message chat_id (offer_text (len last_response))
               (Some (lit "Markdown")) (Some format_keyboard).

(** The three ways an answer is delivered. *)
Inductive delivery_mode := CHUNKED | INLINE | OFFERED.

(** ['\n' in text] *)
Definition contains (c : char) (s : str) : bool := existsb (N.eqb c) s.

(** The test of the [if]/[elif]/[else] of [process_response]. *)
Definition dispatch_mode (response_text : str) : delivery_mode :=
  if (len response_text <=? MAX_TEXT_RESPONSE)%Z && contains LF response_text
  then CHUNKED
  else if (len response_text <=? 1000)%Z then INLINE
  else OFFERED.

Definition process_response (self : ResponseHandler) (user_id chat_id : Z)
                            (response_text original_query : str) : M unit :=
  set_user_data "last_response" response_text ;;
  set_user_data "last_query" original_query ;;
  _save_to_history self user_id original_query response_text ;;
  match dispatch_mode response_text with
  | CHUNKED => _send_text_chunks chat_id response_text
  | INLINE =>
    let safe_text := _prepare_text response_text in
    send_message chat_id safe_text (Some (lit "Markdown")) None
  | OFFERED => _offer_format_choice chat_id
  end.

(** A computation that leaves the session data and the transport alone. *)
Definition files_only {A} (m : M A) : Prop :=
  forall w, user_data (m w).2 = user_data w /\ outbox (m w).2 = outbox w.

(** What [process_response] hands to the transport in each mode. *)
Definition delivery (chat_id : Z) (response_text : str) : event :=
  match dispatch_mode response_text with
  | CHUNKED | INLINE =>
    SendMessage chat_id (_prepare_text response_text) (Some (lit "Markdown")) None
  | OFFERED =>
    SendMessage chat_id (offer_text (len response_text)) (Some (lit "Markdown"))
                (Some format_keyboard)
  end.

(** A 700-character answer of two lines, and a 300-character one. *)
Definition two_line_700 : str := repeat 97 349 ++ [LF] ++ repeat 97 350.
Definition two_line_300 : str := repeat 97 149 ++ [LF] ++ repeat 97 150.

(** A handler on the example installation. *)
Definition example_handler : ResponseHandler := {| file_manager := example_manager |}.

(** * Properties of [str.replace] *)

Lemma startswith_prefix (p s : str) :
  startswith p s = true <-> exists r, s = p ++ r.
Proof.
  revert s. induction p as [|a p IH]; intros s; simpl.
  - split; [eauto | done].
  - destruct s as [|b s]; simpl.
    + split; [done | intros [r Hr]; discriminate].
    + rewrite andb_true_iff, N.eqb_eq, IH. split.
      * intros [-> [r ->]]. eauto.
      * intros [r Hr]. injection Hr as -> ->. eauto.
Qed.

Lemma replace_from_skip (old new : str) (k : nat) (s : str) :
  replace_from old new k s = replace_from old new 0 (skipn k s).
Proof.
  revert s. induction k as [|k IH]; intros s; [done|].
  destruct s as [|c s]; [done|]. simpl. apply IH.
Qed.

(** The unfolding equations of [replace]: an occurrence at the head is
    replaced and the scan resumes behind it; otherwise one character is
    copied. *)
Lemma replace_occurrence (c : char) (old new r : str) :
  replace (c :: old) new ((c :: old) ++ r) = new ++ replace (c :: old) new r.
Proof.
  unfold replace. cbn [app replace_from].
  assert (H : startswith (c :: old) (c :: old ++ r) = true).
  { apply startswith_prefix. eauto. }
  rewrite H. f_equal. rewrite replace_from_skip. f_equal.
  cbn [length]. rewrite Nat.sub_succ, Nat.sub_0_r. apply drop_app_length.
Qed.

Lemma replace_no_occurrence (old new : str) (c : char) (s : str) :
  old <> [] -> startswith old (c :: s) = false ->
  replace old new (c :: s) = c :: replace old new s.
Proof.
  intros Hne H. destruct old as [|a old]; [done|].
  unfold replace. cbn [replace_from]. by rewrite H.
Qed.

Lemma replace_single (c : char) (new s : str) :
  replace [c] new s = flat_map (fun x => if x =? c then new else [x]) s.
Proof.
  unfold replace. induction s as [|x s IH]; [done|].
  cbn [replace_from startswith flat_map length Nat.sub].
  rewrite andb_true_r, (N.eqb_sym c x).
  destruct (x =? c); by rewrite IH.
Qed.

Lemma replace_absent (c : char) (old new s : str) :
  ~ In c s -> replace (c :: old) new s = s.
Proof.
  unfold replace. induction s as [|x s IH]; [done|]. intros Hn.
  cbn [replace_from startswith].
  destruct (c =? x) eqn:E.
  - apply N.eqb_eq in E. subst. exfalso. apply Hn. by left.
  - cbn [andb]. f_equal. apply IH. intros Hin. apply Hn. by right.
Qed.

Lemma in_replace_single (x c : char) (new s : str) :
  In x (replace [c] new s) -> In x new \/ (x <> c /\ In x s).
Proof.
  rewrite replace_single, in_flat_map. intros (y & Hy & Hx).
  destruct (y =? c) eqn:E; [by left|].
  apply N.eqb_neq in E. right. destruct Hx as [<-|[]]. done.
Qed.

(** * Properties of [split] and [join] *)

Lemma split_on_nonempty (sep : char) (s : str) : split_on sep s <> [].
Proof.
  destruct s as [|c s]; [done|]. simpl.
  destruct (c =? sep); [done|]. by destruct (split_on sep s).
Qed.

Lemma split_on_no_sep (sep : char) (s : str) :
  Forall (fun w => ~ In sep w) (split_on sep s).
Proof.
  induction s as [|c s IH]; simpl.
  - constructor; [intros []|constructor].
  - destruct (c =? sep) eqn:E.
    + constructor; [intros []|done].
    + destruct (split_on sep s) as [|w ws]; [constructor; [|done]|].
      * apply N.eqb_neq in E. intros [->|[]]. done.
      * inversion IH as [|? ? Hw Hws]; subst. constructor; [|done].
        apply N.eqb_neq in E. intros [->|Hin]; [done|]. by apply Hw.
Qed.

Lemma split_on_absent (sep : char) (w : str) :
  ~ In sep w -> split_on sep w = [w].
Proof.
  induction w as [|c w IH]; [done|]. intros Hn. simpl.
  destruct (c =? sep) eqn:E.
  - apply N.eqb_eq in E. subst. exfalso. apply Hn. by left.
  - rewrite IH; [done|]. intros Hin. apply Hn. by right.
Qed.

Lemma split_on_app_sep (sep : char) (w r : str) :
  ~ In sep w -> split_on sep (w ++ sep :: r) = w :: split_on sep r.
Proof.
  induction w as [|c w IH]; intros Hn; simpl.
  - by rewrite N.eqb_refl.
  - destruct (c =? sep) eqn:E.
    + apply N.eqb_eq in E. subst. exfalso. apply Hn. by left.
    + rewrite IH; [done|]. intros Hin. apply Hn. by right.
Qed.

Lemma split_on_join (sep : char) (ws : list str) :
  ws <> [] -> Forall (fun w => ~ In sep w) ws ->
  split_on sep (join [sep] ws) = ws.
Proof.
  induction ws as [|w ws IH]; [done|]. intros _ Hall.
  inversion Hall as [|? ? Hw Hws]; subst.
  destruct ws as [|w' ws].
  - simpl. by apply split_on_absent.
  - change (join [sep] (w :: w' :: ws)) with (w ++ sep :: join [sep] (w' :: ws)).
    rewrite split_on_app_sep by done. f_equal. by apply IH.
Qed.

Lemma len_app {A} (l k : list A) : len (l ++ k) = (len l + len k)%Z.
Proof. unfold len. rewrite length_app. lia. Qed.

Lemma len_nonneg {A} (l : list A) : (0 <= len l)%Z.
Proof. unfold len. lia. Qed.

Lemma total_len_snoc (ws : list str) (w : str) :
  total_len (ws ++ [w]) = (total_len ws + len w)%Z.
Proof.
  unfold total_len. rewrite concat_app, len_app. simpl.
  by rewrite app_nil_r.
Qed.

Lemma len_join (ws : list str) :
  ws <> [] -> len (join [SPACE] ws) = (total_len ws + len ws - 1)%Z.
Proof.
  induction ws as [|w ws IH]; [done|]. intros _.
  destruct ws as [|w' ws].
  - unfold total_len, len. simpl. rewrite app_nil_r. lia.
  - change (join [SPACE] (w :: w' :: ws))
      with (w ++ SPACE :: join [SPACE] (w' :: ws)).
    rewrite len_app.
    assert (Hc : len (SPACE :: join [SPACE] (w' :: ws))
                 = (1 + len (join [SPACE] (w' :: ws)))%Z).
    { unfold len. simpl. lia. }
    rewrite Hc, IH by done.
    unfold total_len. change (concat (w :: w' :: ws)) with (w ++ concat (w' :: ws)).
    rewrite len_app. unfold len. simpl. lia.
Qed.

(** * Properties of slices and of the hard split *)

Lemma slice_nonneg (s : str) (i j : Z) :
  (0 <= i <= j)%Z ->
  slice s i j = take (Z.to_nat (j - i)) (drop (Z.to_nat i) s).
Proof.
  intros H. unfold slice, slice_index.
  destruct (i <? 0)%Z eqn:Ei; [lia|]. destruct (j <? 0)%Z eqn:Ej; [lia|].
  destruct (Z.le_gt_cases (len s) i) as [Hi|Hi].
  - rewrite (Z.min_r i) by lia.
    rewrite !drop_ge by (unfold len in *; lia). by rewrite !take_nil.
  - rewrite (Z.min_l i) by lia.
    destruct (Z.le_gt_cases (len s) j) as [Hj|Hj].
    + rewrite Z.min_r by lia.
      rewrite !take_ge; [done|rewrite length_drop; unfold len in *; lia..].
    + by rewrite Z.min_l by lia.
Qed.

Lemma concat_chunks {A} (w : nat) (s : list A) (m : nat) :
  concat (map (fun k => take w (drop (k * w) s)) (seq 0 m)) = take (m * w) s.
Proof.
  induction m as [|m IH]; [done|].
  rewrite seq_S, map_app, concat_app, IH. simpl.
  rewrite app_nil_r, take_take_drop. f_equal. lia.
Qed.

Lemma hard_split_pos (W : Z) (word : str) :
  (1 <= W)%Z ->
  hard_split W word
  = Some (map (fun k => take (Z.to_nat W) (drop (k * Z.to_nat W) word))
              (seq 0 (Z.to_nat ((len word + W - 1) / W)))).
Proof.
  intros HW. unfold hard_split, py_range.
  destruct (W =? 0)%Z eqn:E0; [lia|]. destruct (0 <? W)%Z eqn:E1; [|lia].
  f_equal. rewrite map_map. rewrite Z.sub_0_r. apply map_ext. intros k.
  rewrite slice_nonneg by nia. f_equal; [f_equal; lia|]. f_equal.
  rewrite Z.add_0_l, Z2Nat.inj_mul, Nat2Z.id by lia. done.
Qed.

Lemma ceil_div_covers (n W : Z) :
  (1 <= W)%Z -> (0 <= n)%Z -> (n <= (n + W - 1) / W * W)%Z.
Proof.
  intros HW Hn.
  pose proof (Z.div_mod (n + W - 1) W ltac:(lia)) as Hd.
  pose proof (Z.mod_pos_bound (n + W - 1) W ltac:(lia)) as Hm.
  nia.
Qed.

Lemma fragments_concat (W : Z) (word : str) :
  (1 <= W)%Z -> concat (fragments W word) = word.
Proof.
  intros HW. unfold fragments. destruct (W <? len word)%Z; [|apply app_nil_r].
  rewrite hard_split_pos by done. simpl. rewrite concat_chunks.
  apply take_ge.
  pose proof (ceil_div_covers (len word) W HW (len_nonneg word)) as Hc.
  pose proof (Z.div_pos (len word + W - 1) W) as Hp.
  unfold len in *.
  apply Nat2Z.inj_le. rewrite Nat2Z.inj_mul, !Z2Nat.id; lia.
Qed.

Lemma fragments_bounded (W : Z) (word : str) :
  (1 <= W)%Z -> Forall (fun f => (len f <= W)%Z) (fragments W word).
Proof.
  intros HW. unfold fragments. destruct (W <? len word)%Z eqn:E.
  - rewrite hard_split_pos by done. simpl. apply Forall_map, Forall_forall.
    intros k _. unfold len. rewrite length_take. lia.
  - constructor; [lia|constructor].
Qed.

Lemma fragments_fit (W : Z) (word : str) :
  (len word <= W)%Z -> fragments W word = [word].
Proof. intros H. unfold fragments. destruct (W <? len word)%Z eqn:E; [lia|done]. Qed.

Lemma fragments_hard_split (W : Z) (word : str) :
  (1 <= W)%Z -> (W < len word)%Z -> hard_split W word = Some (fragments W word).
Proof.
  intros HW H. unfold fragments. destruct (W <? len word)%Z eqn:E; [|lia].
  by rewrite hard_split_pos.
Qed.

Lemma in_take {A} (x : A) (n : nat) (l : list A) : In x (take n l) -> In x l.
Proof.
  revert l. induction n as [|n IH]; intros [|y l]; simpl; try done.
  intros [->|H]; [by left|right; by apply IH].
Qed.

Lemma in_drop {A} (x : A) (n : nat) (l : list A) : In x (drop n l) -> In x l.
Proof.
  revert l. induction n as [|n IH]; intros [|y l]; simpl; try done.
  intros H. right. by apply IH.
Qed.

Lemma fragments_no_space (W : Z) (word : str) :
  (1 <= W)%Z -> ~ In SPACE word ->
  Forall (fun f => ~ In SPACE f) (fragments W word).
Proof.
  intros HW Hn. unfold fragments. destruct (W <? len word)%Z eqn:E.
  - rewrite hard_split_pos by done. simpl. apply Forall_map, Forall_forall.
    intros k _ Hin. apply Hn. eapply in_drop, in_take, Hin.
  - constructor; [done|constructor].
Qed.

Lemma flat_map_split_fragments (ws : list str) :
  Forall (fun w => ~ In SPACE w) ws -> flat_map (split_on SPACE) ws = ws.
Proof.
  induction 1 as [|w ws Hw _ IH]; [done|]. simpl.
  by rewrite split_on_absent, IH.
Qed.

(** * The word wrapper *)

Lemma flat_map_snoc {A B} (f : A -> list B) (l : list A) (x : A) :
  flat_map f (l ++ [x]) = flat_map f l ++ f x.
Proof. rewrite flat_map_app. simpl. by rewrite app_nil_r. Qed.

#[local] Arguments join : simpl never.
#[local] Arguments split_on : simpl never.

Lemma wrap_word_inv (W : Z) (done : list str) (st : wrap_state) (word : str) :
  (1 <= W)%Z -> wrap_inv W done st -> ~ In SPACE word ->
  exists st', wrap_word W st word = Some st' /\ wrap_inv W (done ++ [word]) st'.
Proof.
  intros HW (Hl & Hns & Hn & Hb & Hc) Hw. destruct st as [ls cl n].
  simpl in *. subst n. unfold wrap_word, wrap_inv. simpl.
  destruct (W <? len word)%Z eqn:Elong.
  - apply Z.ltb_lt in Elong.
    destruct cl as [|w0 cl]; simpl;
      rewrite fragments_hard_split by done; eexists; (split; [done|]); simpl.
    + rewrite app_nil_r in *. repeat split; try done.
      * apply Forall_app_2; [done|by apply fragments_bounded].
      * rewrite (flat_map_snoc (fragments W)), <- Hc, flat_map_app.
        f_equal. by apply flat_map_split_fragments, fragments_no_space.
    + rewrite app_nil_r. repeat split; try done.
      * repeat apply Forall_app_2; [done| |by apply fragments_bounded].
        constructor; [|done]. rewrite len_join by done.
        specialize (Hb ltac:(done)). lia.
      * rewrite (flat_map_snoc (fragments W)), <- Hc, flat_map_app.
        rewrite (flat_map_snoc (split_on SPACE)), split_on_join by done.
        f_equal. by apply flat_map_split_fragments, fragments_no_space.
  - apply Z.ltb_ge in Elong.
    destruct (W <? total_len cl + len word + len cl)%Z eqn:Efull.
    + apply Z.ltb_lt in Efull.
      assert (Hne : cl <> []).
      { intros ->. unfold total_len, len in *. simpl in *. lia. }
      eexists; split; [done|]; simpl. repeat split.
      * apply Forall_app_2; [done|]. constructor; [|done].
        rewrite len_join by done. specialize (Hb Hne). lia.
      * by constructor.
      * unfold total_len. simpl. by rewrite app_nil_r.
      * intros _. unfold total_len, len in *. simpl. rewrite app_nil_r. lia.
      * rewrite (flat_map_snoc (fragments W)), <- Hc.
        rewrite (flat_map_snoc (split_on SPACE)), split_on_join by done.
        rewrite fragments_fit by done. done.
    + apply Z.ltb_ge in Efull.
      eexists; split; [done|]; simpl. repeat split.
      * done.
      * apply Forall_app_2; [done|]. by constructor.
      * by rewrite total_len_snoc.
      * intros _. rewrite total_len_snoc, len_app.
        change (len [word]) with 1%Z. lia.
      * rewrite (flat_map_snoc (fragments W)), <- Hc, fragments_fit by done.
        by rewrite app_assoc.
Qed.

Lemma wrap_words_inv (W : Z) (ws done : list str) (st : wrap_state) :
  (1 <= W)%Z -> wrap_inv W done st -> Forall (fun w => ~ In SPACE w) ws ->
  exists st', fold_raise (wrap_word W) ws st = Some st'
              /\ wrap_inv W (done ++ ws) st'.
Proof.
  intros HW. revert done st. induction ws as [|w ws IH]; intros done st Hinv Hws.
  - exists st. by rewrite app_nil_r.
  - inversion Hws as [|? ? Hw Hws']; subst.
    destruct (wrap_word_inv W done st w HW Hinv Hw) as (st1 & E1 & Hinv1).
    destruct (IH _ _ Hinv1 Hws') as (st2 & E2 & Hinv2).
    exists st2. simpl. rewrite E1. split; [done|].
    by rewrite <- app_assoc in Hinv2.
Qed.

(** The state between two paragraphs: no pending line. *)
Lemma wrap_paragraph_inv (W : Z) (done : list str) (ls : list str) (p : str) :
  (1 <= W)%Z ->
  Forall (fun l => (len l <= W)%Z) ls ->
  flat_map (split_on SPACE) ls = flat_map (fragments W) done ->
  exists ls', wrap_paragraph W ls p = Some ls'
    /\ Forall (fun l => (len l <= W)%Z) ls'
    /\ flat_map (split_on SPACE) ls'
       = flat_map (fragments W) (done ++ split_on SPACE p).
Proof.
  intros HW Hl Hc. unfold wrap_paragraph.
  assert (Hinv : wrap_inv W done (WrapState ls [] 0)).
  { unfold wrap_inv. simpl. rewrite app_nil_r. by repeat split. }
  destruct (wrap_words_inv W (split_on SPACE p) done _ HW Hinv
              (split_on_no_sep SPACE p)) as (st & -> & Hl' & Hns & _ & Hb & Hc').
  destruct (current_line st) as [|w0 cl] eqn:Ecl.
  - exists (lines st). rewrite app_nil_r in Hc'. done.
  - eexists; split; [done|]. split.
    + apply Forall_app_2; [done|]. constructor; [|done].
      rewrite len_join by done. specialize (Hb ltac:(done)). lia.
    + rewrite flat_map_snoc, split_on_join by done. done.
Qed.

Lemma wrap_paragraphs_inv (W : Z) (ps : list str) (done ls : list str) :
  (1 <= W)%Z ->
  Forall (fun l => (len l <= W)%Z) ls ->
  flat_map (split_on SPACE) ls = flat_map (fragments W) done ->
  exists ls', fold_raise (wrap_paragraph W) ps ls = Some ls'
    /\ Forall (fun l => (len l <= W)%Z) ls'
    /\ flat_map (split_on SPACE) ls'
       = flat_map (fragments W) (done ++ flat_map (split_on SPACE) ps).
Proof.
  intros HW. revert done ls. induction ps as [|p ps IH]; intros done ls Hl Hc.
  - exists ls. simpl. by rewrite app_nil_r.
  - destruct (wrap_paragraph_inv W done ls p HW Hl Hc) as (ls1 & E1 & Hl1 & Hc1).
    destruct (IH _ _ Hl1 Hc1) as (ls2 & E2 & Hl2 & Hc2).
    exists ls2. simpl. rewrite E1. split; [done|]. split; [done|].
    by rewrite <- app_assoc in Hc2.
Qed.

(** C2. For every text [T] and width [W >= 1], [_wrap_text T W] returns a list
    of lines; every line has length at most [W]; a word longer than [W] is
    hard-split into fragments of length at most [W] whose concatenation is the
    word, a word that fits is kept whole; and splitting the lines at their
    spaces gives back the words of [T], fragment by fragment, in their
    original order. *)
Theorem wrap_text_bounded_and_order_preserving (T : str) (W : Z) :
  (1 <= W)%Z ->
  exists ls : list str,
    _wrap_text T W = Some ls
    /\ Forall (fun l => (len l <= W)%Z) ls
    /\ exists frag : str -> list str,
         (forall w, concat (frag w) = w
                    /\ Forall (fun f => (len f <= W)%Z) (frag w)
                    /\ ((len w <= W)%Z -> frag w = [w])
                    /\ ((W < len w)%Z -> hard_split W w = Some (frag w)))
         /\ flat_map (split_on SPACE) ls = flat_map frag (words T)
         /\ concat (flat_map (split_on SPACE) ls) = concat (words T).
Proof.
  intros HW.
  destruct (wrap_paragraphs_inv W (split_on LF T) [] [] HW) as (ls & E & Hl & Hc);
    [done..|].
  exists ls. split; [done|]. split; [done|].
  exists (fragments W). split; [|split; [done|]].
  - intros w. split; [by apply fragments_concat|].
    split; [by apply fragments_bounded|].
    split; [apply fragments_fit|by apply fragments_hard_split].
  - rewrite Hc. simpl. fold (words T).
    induction (words T) as [|w ws IH]; [done|]. simpl.
    by rewrite concat_app, IH, fragments_concat.
Qed.

Lemma wrap_text_bounded_and_order_preserving_witness :
  (1 <= 3)%Z /\
  exists ls : list str,
    _wrap_text (lit "aaaa bb c  dddddddd e") 3 = Some ls
    /\ Forall (fun l => (len l <= 3)%Z) ls
    /\ exists frag : str -> list str,
         (forall w, concat (frag w) = w
                    /\ Forall (fun f => (len f <= 3)%Z) (frag w)
                    /\ ((len w <= 3)%Z -> frag w = [w])
                    /\ ((3 < len w)%Z -> hard_split 3 w = Some (frag w)))
         /\ flat_map (split_on SPACE) ls
            = flat_map frag (words (lit "aaaa bb c  dddddddd e"))
         /\ concat (flat_map (split_on SPACE) ls)
            = concat (words (lit "aaaa bb c  dddddddd e")).
Proof.
  split; [lia|].
  apply (wrap_text_bounded_and_order_preserving
           (lit "aaaa bb c  dddddddd e") 3).
  lia.
Defined.

Example wrap_text_example :
  _wrap_text (lit "aaaa bb c  dddddddd e") 3
  = Some [lit "aaa"; lit "a"; lit "bb"; lit "c "; lit "ddd"; lit "ddd";
          lit "dd"; lit "e"].
Proof. vm_compute. reflexivity. Qed.

(** * The normaliser [clean_markdown] *)

Lemma replace_single_removes (c : char) (new s : str) :
  ~ In c new -> ~ In c (replace [c] new s).
Proof. intros Hn Hin. apply in_replace_single in Hin. tauto. Qed.

Lemma replace_single_keeps_absent (x c : char) (new s : str) :
  ~ In x new -> ~ In x s -> ~ In x (replace [c] new s).
Proof. intros Hn Hs Hin. apply in_replace_single in Hin. tauto. Qed.

#[local] Ltac not_in_literal :=
  let H := fresh in
  intros H; cbn in H; repeat destruct H as [H|H]; try discriminate H; done.

(** The ['```'] entry of [replacements] never fires: the ['`'] entry before
    it has already turned every backtick into a quote. *)
Lemma clean_markdown_unfold (T : str) :
  clean_markdown T
  = replace [TAB] [SPACE; SPACE; SPACE; SPACE]
      (replace [BACKTICK] [QUOTE]
         (replace [CR] [LF] (replace [CR; LF] [LF] T))).
Proof.
  unfold clean_markdown, replacements. cbn [fold_left].
  f_equal. apply replace_absent, replace_single_removes. not_in_literal.
Qed.

Lemma clean_markdown_no_cr (T : str) : ~ In CR (clean_markdown T).
Proof.
  rewrite clean_markdown_unfold.
  apply replace_single_keeps_absent; [not_in_literal|].
  apply replace_single_keeps_absent; [not_in_literal|].
  apply replace_single_removes. not_in_literal.
Qed.

Lemma clean_markdown_no_backtick (T : str) : ~ In BACKTICK (clean_markdown T).
Proof.
  rewrite clean_markdown_unfold.
  apply replace_single_keeps_absent; [not_in_literal|].
  apply replace_single_removes. not_in_literal.
Qed.

Lemma clean_markdown_no_tab (T : str) : ~ In TAB (clean_markdown T).
Proof.
  rewrite clean_markdown_unfold. apply replace_single_removes. not_in_literal.
Qed.

(** C4. On the text ["```a```b"] the normaliser returns ["'''a'''b"]: no line
    break follows the fenced region.  On every text the result is what the
    line-ending, backtick and tab replacements alone produce, so the
    ['```' -> '```\n'] entry contributes nothing; the result holds no carriage
    return, no tab and no backtick. *)
Theorem clean_markdown_adds_no_break_after_fence :
  clean_markdown (lit "```a```b") = lit "'''a'''b"
  /\ ~ In LF (clean_markdown (lit "```a```b"))
  /\ forall T : str,
       clean_markdown T
       = replace [TAB] [SPACE; SPACE; SPACE; SPACE]
           (replace [BACKTICK] [QUOTE]
              (replace [CR] [LF] (replace [CR; LF] [LF] T)))
       /\ ~ In CR (clean_markdown T)
       /\ ~ In TAB (clean_markdown T)
       /\ ~ In BACKTICK (clean_markdown T).
Proof.
  split; [by vm_compute|]. split.
  - vm_compute. intros H. repeat destruct H as [H|H]; try discriminate H. done.
  - intros T. split; [apply clean_markdown_unfold|].
    split; [apply clean_markdown_no_cr|].
    split; [apply clean_markdown_no_tab|apply clean_markdown_no_backtick].
Qed.

(** C9. The normaliser is idempotent. *)
Theorem clean_markdown_idempotent (T : str) :
  clean_markdown (clean_markdown T) = clean_markdown T.
Proof.
  rewrite (clean_markdown_unfold (clean_markdown T)).
  rewrite (replace_absent CR [LF]) by apply clean_markdown_no_cr.
  rewrite (replace_absent CR []) by apply clean_markdown_no_cr.
  rewrite (replace_absent BACKTICK []) by apply clean_markdown_no_backtick.
  apply replace_absent, clean_markdown_no_tab.
Qed.

(** * [_prepare_text] *)

Lemma flat_map_comp {A B C} (f : A -> list B) (g : B -> list C) (l : list A) :
  flat_map g (flat_map f l) = flat_map (fun x => flat_map g (f x)) l.
Proof.
  induction l as [|x l IH]; [done|]. simpl. by rewrite flat_map_app, IH.
Qed.

Lemma prepare_text_escapes (text : str) :
  _prepare_text text = backslash_escaped text.
Proof.
  unfold _prepare_text, backslash_escaped. rewrite !replace_single.
  rewrite !flat_map_comp. apply flat_map_ext. intros c.
  unfold is_markdown_special.
  destruct (N.eqb_spec c UNDERSCORE) as [->|H1]; [done|].
  destruct (N.eqb_spec c STAR) as [->|H2]; [done|].
  cbn [flat_map orb]. rewrite (proj2 (N.eqb_neq c STAR) H2). cbn [flat_map app].
  destruct (N.eqb_spec c BACKTICK) as [->|H3]; done.
Qed.

(** * The plain-text renderer *)

Example plain_text_heading (db : unicode_db) :
  markdown_to_plain_text db (lit "## Title  x **b** and *i* [l](u) ![a](b)")
  = lit "Title  x b and i l ".
Proof. vm_compute. reflexivity. Qed.

Example plain_text_list :
  markdown_to_plain_text ascii_classes (lit "- a" ++ [LF] ++ lit "  12. b" ++ [LF] ++ lit "x - y")
  = [BULLET; SPACE] ++ lit "a" ++ [LF] ++ lit "b" ++ [LF] ++ lit "x - y".
Proof. vm_compute. reflexivity. Qed.

(** C3. On a fenced code block with a language tag the renderer keeps the tag
    line: the inline-code rule runs before the fence rule, pairs up the
    backticks of the fences and leaves nothing for the fence rule to match.
    The fence rule applied to the same text on its own strips the fences and
    the tag line. *)
Theorem plain_text_inline_rule_corrupts_fence (db : unicode_db) :
  let fenced := lit "```py" ++ [LF] ++ lit "x = 1" ++ [LF] ++ lit "```" in
  markdown_to_plain_text db fenced = lit "py" ++ [LF] ++ lit "x = 1" ++ [LF]
  /\ re_sub db inline_code_pattern Group1 fenced
     = lit "py" ++ [LF] ++ lit "x = 1" ++ [LF]
  /\ re_sub db code_block_pattern Group1 fenced = lit "x = 1" ++ [LF].
Proof. vm_compute. by repeat split. Qed.

Example strftime_micro_example :
  strftime_micro (DateTime 2024 3 9 7 5 0 4200) = lit "20240309_070500_004200".
Proof. vm_compute. reflexivity. Qed.

Example toordinal_example : toordinal (DateTime 2024 3 1 0 0 0 0) = 738946%Z.
Proof. vm_compute. reflexivity. Qed.

Example str_of_int_example : str_of_int (-42) = lit "-42".
Proof. vm_compute. reflexivity. Qed.

(** * The sweep of a directory *)

Lemma with_files_id (w : world) : with_files (files w) w = w.
Proof. by destruct w. Qed.



Lemma expired_root (fs : gmap path node) (now_ : datetime) (max_age : Z) :
  expired fs now_ max_age [] = false.
Proof. done. Qed.







(** The scenario of the specification, run on the example installation. *)
Example sweep_after_30_minutes :
  files (cleanup_dir example_temp 3600
           (example_world (DateTime 2024 1 1 12 30 0 0))).2 !! example_artifact
  = Some (File example_T0 (PdfData [AddPage])).
Proof. vm_compute. reflexivity. Qed.

Example sweep_after_90_minutes :
  files (cleanup_dir example_temp 3600
           (example_world (DateTime 2024 1 1 13 30 0 0))).2 !! example_artifact
  = None.
Proof. vm_compute. reflexivity. Qed.

Example sweep_at_exactly_one_hour :
  files (cleanup_dir example_temp 3600
           (example_world (DateTime 2024 1 1 13 0 0 0))).2 !! example_artifact
  = Some (File example_T0 (PdfData [AddPage])).
Proof. vm_compute. reflexivity. Qed.

(** * Paths of the per-user directories *)

Lemma lookup_node_snoc (fs : gmap path node) (d : path) (x : str) :
  lookup_node fs (d ++ [x]) = fs !! (d ++ [x]).
Proof. unfold lookup_node. by destruct d. Qed.

Lemma parent_snoc (d : path) (x : str) : parent (d ++ [x]) = d.
Proof. apply removelast_last. Qed.

Lemma bytes_of_string_inj (s1 s2 : string) :
  bytes_of_string s1 = bytes_of_string s2 -> s1 = s2.
Proof.
  revert s2. induction s1 as [|a s1 IH]; intros [|b s2]; simpl; try done.
  intros H. injection H as Ha Hs. f_equal; [|by apply IH].
  rewrite <- (ascii_N_embedding a), <- (ascii_N_embedding b). by rewrite Ha.
Qed.

Lemma str_of_int_inj (a b : Z) : str_of_int a = str_of_int b -> a = b.
Proof. intros H. apply bytes_of_string_inj in H. by apply (inj pretty). Qed.

Lemma user_dir_of_inj (self : FileManager) (a b : Z) :
  user_dir_of self a = user_dir_of self b -> a = b.
Proof.
  unfold user_dir_of. intros H. apply app_inv_head in H.
  injection H as H. by apply str_of_int_inj.
Qed.

(** A path below one user's directory is neither another user's directory nor
    below the other user's working area. *)
Lemma other_user_outside (self : FileManager) (u v : Z) (p : path) :
  v <> u -> user_dir_of self v `prefix_of` p ->
  p <> user_dir_of self u /\ ~ temp_dir_of self u `prefix_of` p.
Proof.
  intros Hne [k ->]. unfold temp_dir_of, user_dir_of. split.
  - rewrite <- app_assoc. intros H. apply app_inv_head in H.
    injection H as H _. by apply str_of_int_inj in H.
  - intros [k' H]. rewrite <- !app_assoc in H. apply app_inv_head in H.
    injection H as H _. by apply str_of_int_inj in H.
Qed.

Lemma history_outside_temp (self : FileManager) (u : Z) (p : path) :
  history_dir_of self u `prefix_of` p ->
  p <> user_dir_of self u /\ ~ temp_dir_of self u `prefix_of` p.
Proof.
  intros [k ->]. unfold history_dir_of, temp_dir_of. split.
  - rewrite <- app_assoc. intros H.
    rewrite <- (app_nil_r (user_dir_of self u)) in H at 2.
    by apply app_inv_head in H.
  - intros [k' H]. rewrite <- !app_assoc in H. apply app_inv_head in H.
    by injection H.
Qed.

(** * The clear request *)

Lemma lookup_rmtree (fs : gmap path node) (d p : path) :
  filter (fun kv : path * node => ~ d `prefix_of` kv.1) fs !! p
  = if decide (d `prefix_of` p) then None else fs !! p.
Proof.
  destruct (decide (d `prefix_of` p)) as [Hp|Hp].
  - apply map_lookup_filter_None. right. intros n _ Hn. by apply Hn.
  - destruct (fs !! p) as [n|] eqn:E.
    + apply map_lookup_filter_Some. by split.
    + apply map_lookup_filter_None. by left.
Qed.

Lemma tree_closed_ancestor (fs : gmap path node) (d k : path) :
  tree_closed fs -> d <> [] -> is_Some (fs !! (d ++ k)) -> is_Some (fs !! d).
Proof.
  intros Hc Hd. induction k as [|x k IH] using rev_ind.
  - by rewrite app_nil_r.
  - intros [n Hn]. apply IH. apply Hc in Hn. rename Hn into Hs.
    rewrite app_assoc, parent_snoc in Hs. unfold is_directory, lookup_node in Hs.
    destruct (d ++ k) eqn:E; [by destruct d|].
    destruct (fs !! _); [by eexists|done].
Qed.

Lemma path_exists_run (p : path) (w : world) :
  path_exists p w = (Return (bool_decide (is_Some (lookup_node (files w) p))), w).
Proof. done. Qed.

(** [get_user_base_dir] either raises and leaves the world as it is (the
    user's directory is a regular file, or the base directory is missing), or
    returns the user's directory, created when it was missing. *)
Lemma get_user_base_dir_run (self : FileManager) (user_id : Z) (w : world) :
  (exists e, get_user_base_dir self user_id w = (Raise e, w)
             /\ (not_a_file (files w) (user_dir_of self user_id) ->
                 is_directory (files w) (base_dir self) = true -> False))
  \/ (exists fs1,
        get_user_base_dir self user_id w
        = (Return (user_dir_of self user_id), with_files fs1 w)
        /\ fs1 !! user_dir_of self user_id = Some Dir
        /\ forall q, q <> user_dir_of self user_id -> fs1 !! q = files w !! q).
Proof.
  set (U := user_dir_of self user_id).
  assert (HpU : parent U = base_dir self) by apply parent_snoc.
  assert (HlU : forall fs, lookup_node fs U = fs !! U)
    by (intros; apply lookup_node_snoc).
  unfold get_user_base_dir, bind, mkdir, ret. fold U. rewrite HlU, HpU.
  unfold not_a_file, is_directory.
  destruct (files w !! U) as [[|mt dt]|] eqn:EU.
  - right. exists (files w). rewrite with_files_id. by repeat split.
  - left. eexists. split; [done|]. tauto.
  - destruct (lookup_node (files w) (base_dir self)) as [[|mt dt]|] eqn:EB.
    + right. exists (<[U:=Dir]> (files w)). split; [done|].
      split; [apply lookup_insert_eq|].
      intros q Hq. by apply lookup_insert_ne.
    + left. eexists. split; [done|]. intros _ H. discriminate H.
    + left. eexists. split; [done|]. intros _ H. discriminate H.
Qed.

Lemma cleanup_user_files_run (self : FileManager) (user_id : Z) (w : world) :
  exists fs',
    cleanup_user_files self user_id w = (Return tt, with_files fs' w)
    /\ (forall p, p <> user_dir_of self user_id ->
                  ~ temp_dir_of self user_id `prefix_of` p ->
                  fs' !! p = files w !! p)
    /\ (tree_closed (files w) ->
        is_directory (files w) (base_dir self) = true ->
        not_a_file (files w) (user_dir_of self user_id) ->
        not_a_file (files w) (temp_dir_of self user_id) ->
        fs' !! temp_dir_of self user_id = Some Dir
        /\ forall p, temp_dir_of self user_id `prefix_of` p ->
                     p <> temp_dir_of self user_id -> fs' !! p = None).
Proof.
  set (U := user_dir_of self user_id). set (T := temp_dir_of self user_id).
  assert (HTU : T <> U).
  { unfold T, temp_dir_of. fold U. intros H.
    rewrite <- (app_nil_r U) in H at 2. by apply app_inv_head in H. }
  assert (HUT : ~ T `prefix_of` U).
  { intros [k H]. unfold T, temp_dir_of in H. fold U in H.
    rewrite <- app_assoc in H. rewrite <- (app_nil_r U) in H at 1.
    by apply app_inv_head in H. }
  assert (HpU : parent U = base_dir self) by apply parent_snoc.
  assert (HpT : parent T = U) by apply parent_snoc.
  assert (HlU : forall fs, lookup_node fs U = fs !! U)
    by (intros; apply lookup_node_snoc).
  assert (HlT : forall fs, lookup_node fs T = fs !! T)
    by (intros; apply lookup_node_snoc).
  pose proof (get_user_base_dir_run self user_id w) as Hstep1. fold U in Hstep1.
  unfold cleanup_user_files, try_except. unfold bind at 1.
  destruct Hstep1 as [(e & -> & Hbad)|(fs1 & -> & HU1 & Hfs1)].
  { exists (files w). rewrite with_files_id. split; [done|]. split; [done|].
    intros _ Hb Hu _. destruct (Hbad Hu Hb). }
  fold (temp_dir_of self user_id). fold T.
  unfold bind at 1. rewrite path_exists_run. cbn [files with_files].
  rewrite HlU, HU1, bool_decide_eq_true_2 by by eexists.
  unfold bind at 1. rewrite path_exists_run. cbn [files with_files].
  rewrite HlT, (Hfs1 T HTU).
  destruct (files w !! T) as [[|mt dt]|] eqn:ET.
  - (* the working area is a directory: removed, then created again *)
    rewrite bool_decide_eq_true_2 by by eexists.
    unfold bind, rmtree, mkdir. cbn [files with_files].
    change (U ++ [lit "temp"]) with T.
    rewrite HlT, (Hfs1 T HTU), ET. cbn [files with_files].
    rewrite HlT, lookup_rmtree, decide_True by done.
    rewrite HpT, HlU, lookup_rmtree, decide_False by done. rewrite HU1.
    eexists. split; [reflexivity|]. split.
    + intros p Hp1 Hp2. rewrite lookup_insert_ne by by intros <-.
      rewrite lookup_rmtree, decide_False by done. by apply Hfs1.
    + intros _ _ _ _. split; [apply lookup_insert_eq|].
      intros p Hp1 Hp2. rewrite lookup_insert_ne by done.
      by rewrite lookup_rmtree, decide_True.
  - (* the working area is a regular file: [rmtree] raises *)
    rewrite bool_decide_eq_true_2 by by eexists.
    unfold bind, rmtree. cbn [files with_files].
    change (U ++ [lit "temp"]) with T.
    rewrite HlT, (Hfs1 T HTU), ET. unfold ret.
    exists fs1. split; [done|]. split; [by intros; apply Hfs1|].
    intros _ _ _ Hnf. unfold not_a_file in Hnf. by rewrite ET in Hnf.
  - (* no working area yet: created *)
    rewrite bool_decide_eq_false_2 by by intros [? ?].
    unfold bind, ret, mkdir. cbn [files with_files].
    change (U ++ [lit "temp"]) with T.
    rewrite HlT, (Hfs1 T HTU), ET, HpT, HlU, HU1.
    eexists. split; [reflexivity|]. split.
    + intros p Hp1 Hp2. rewrite lookup_insert_ne by by intros <-.
      by apply Hfs1.
    + intros Hc _ _ _. split; [apply lookup_insert_eq|].
      intros p [k ->] Hp2. rewrite lookup_insert_ne by done.
      rewrite Hfs1.
      * apply eq_None_not_Some. intros Hs.
        apply (tree_closed_ancestor _ T k Hc) in Hs;
          [|by unfold T, temp_dir_of; destruct (user_dir_of self user_id)].
        rewrite ET in Hs. by destruct Hs.
      * intros H. apply HUT. exists k. done.
Qed.

(** C6. A clear request returns and changes nothing outside the working area
    of the requesting user, apart from creating the user's directory when it
    is missing: every path in the user's transcript area and every path in
    another user's directory is as before.  In an installation whose base
    directory exists, where the user's directory and working area are not
    regular files, the working area is afterwards an empty directory. *)
Theorem cleanup_user_files_clears_only_working_area
        (self : FileManager) (user_id : Z) (w : world) :
  exists w',
    cleanup_user_files self user_id w = (Return tt, w')
    /\ (forall p, p <> user_dir_of self user_id ->
                  ~ temp_dir_of self user_id `prefix_of` p ->
                  files w' !! p = files w !! p)
    /\ (forall p, history_dir_of self user_id `prefix_of` p ->
                  files w' !! p = files w !! p)
    /\ (forall other p, other <> user_id ->
                        user_dir_of self other `prefix_of` p ->
                        files w' !! p = files w !! p)
    /\ (tree_closed (files w) ->
        is_directory (files w) (base_dir self) = true ->
        not_a_file (files w) (user_dir_of self user_id) ->
        not_a_file (files w) (temp_dir_of self user_id) ->
        files w' !! temp_dir_of self user_id = Some Dir
        /\ forall p, temp_dir_of self user_id `prefix_of` p ->
                     p <> temp_dir_of self user_id -> files w' !! p = None).
Proof.
  destruct (cleanup_user_files_run self user_id w) as (fs' & E & Hframe & Hclear).
  exists (with_files fs' w). split; [exact E|]. cbn [files with_files].
  split; [exact Hframe|]. split; [|split; [|exact Hclear]].
  - intros p Hp. by apply Hframe; apply (history_outside_temp self user_id p).
  - intros other p Hne Hp.
    by apply Hframe; apply (other_user_outside self user_id other p).
Qed.

Lemma example_files_closed : tree_closed example_files.
Proof.
  unfold tree_closed. refine (bool_decide_unpack _ _). vm_compute. exact I.
Qed.

Lemma cleanup_user_files_clears_only_working_area_witness :
  exists w',
    cleanup_user_files example_manager 7
      (example_world example_T0) = (Return tt, w')
    /\ files w' !! example_artifact = None
    /\ files w' !! example_temp = Some Dir
    /\ files w' !! example_record = example_files !! example_record.
Proof.
  destruct (cleanup_user_files_clears_only_working_area
              example_manager 7 (example_world example_T0))
    as (w' & E & _ & Hhistory & _ & Hclear).
  exists w'. split; [exact E|].
  destruct Hclear as [Htemp Hgone].
  - exact example_files_closed.
  - vm_compute. reflexivity.
  - vm_compute. exact I.
  - vm_compute. exact I.
  - split; [|split].
    + apply Hgone; [|by vm_compute].
      exists [lit "pdf_20240101_120000_000000.pdf"]. reflexivity.
    + exact Htemp.
    + apply Hhistory. exists [lit "session_20240101_115900.txt"]. reflexivity.
Defined.

Example clear_request_example :
  let w' := (cleanup_user_files example_manager 7
               (example_world example_T0)).2 in
  files w' = delete example_artifact example_files.
Proof. apply map_eq. intros p. vm_compute. reflexivity. Qed.

(** * Artifact names *)











Example lit_decodes_utf8 :
  lit "•" = [BULLET] /\ lit "✅" = [9989] /\ lit "Я" = [1071]
  /\ lit "📄 a" = [128196; SPACE; 97].
Proof. vm_compute. by repeat split. Qed.

(** * The paginated-document builder *)

Example pdf_build_with_fonts :
  let w := World (<[font_bold := File epoch (TextData [])]>
                  (<[font_regular := File epoch (TextData [])]>
                   (delete example_artifact example_files)))
                 (fun _ => example_T0) 0 [lit "tmp"] ascii_classes ∅ [] in
  let r := create_pdf_from_markdown (lit "hello") 7 [] w in
  r.1 = Return (Some example_artifact)
  /\ files r.2 !! (example_temp ++ [lit "md_source_20240101_120000_000000.md"]) = None
  /\ is_Some (files r.2 !! example_artifact).
Proof. vm_compute. split; [done|]. split; [done|]. eexists. reflexivity. Qed.

(** C7. With the font files missing the build fails, and the Markdown source
    it saved first stays in the working area; no output file is written.
    With the fonts in place the build returns the document and deletes the
    Markdown source. *)
Theorem failed_pdf_build_leaves_markdown_source :
  (create_pdf_from_markdown (lit "hello") 7 []
     (example_clean_world (fun _ => example_T0) 0)).1 = Return None
  /\ files (create_pdf_from_markdown (lit "hello") 7 []
              (example_clean_world (fun _ => example_T0) 0)).2
       !! (example_temp ++ [lit "md_source_20240101_120000_000000.md"])
     = Some (File example_T0 (TextData (lit "hello")))
  /\ files (create_pdf_from_markdown (lit "hello") 7 []
              (example_clean_world (fun _ => example_T0) 0)).2
       !! example_artifact = None
  /\ (create_pdf_from_markdown (lit "hello") 7 []
        (World (<[font_bold := File epoch (TextData [])]>
                (<[font_regular := File epoch (TextData [])]>
                 (delete example_artifact example_files)))
               (fun _ => example_T0) 0 [lit "tmp"] ascii_classes ∅ [])).1
     = Return (Some example_artifact)
  /\ files (create_pdf_from_markdown (lit "hello") 7 []
              (World (<[font_bold := File epoch (TextData [])]>
                      (<[font_regular := File epoch (TextData [])]>
                       (delete example_artifact example_files)))
                     (fun _ => example_T0) 0 [lit "tmp"] ascii_classes ∅ [])).2
       !! (example_temp ++ [lit "md_source_20240101_120000_000000.md"])
     = None.
Proof. vm_compute. by repeat split. Qed.

(** * The dispatcher *)

Lemma files_only_ret {A} (a : A) : files_only (ret a).
Proof. by intros w. Qed.

Lemma files_only_raise {A} (e : exn) : files_only (@raise A e).
Proof. by intros w. Qed.

Lemma files_only_bind {A B} (m : M A) (k : A -> M B) :
  files_only m -> (forall a, files_only (k a)) -> files_only (bind m k).
Proof.
  intros Hm Hk w. unfold bind. specialize (Hm w).
  destruct (m w) as [[a|e] w1]; simpl in *; [|done].
  destruct (Hk a w1) as [H1 H2]. destruct Hm as [H3 H4]. split; congruence.
Qed.

Lemma files_only_try_except {A} (m : M A) (h : exn -> M A) :
  files_only m -> (forall e, files_only (h e)) -> files_only (try_except m h).
Proof.
  intros Hm Hh w. unfold try_except. specialize (Hm w).
  destruct (m w) as [[a|e] w1]; simpl in *; [done|].
  destruct (Hh e w1) as [H1 H2]. destruct Hm as [H3 H4]. split; congruence.
Qed.

Lemma files_only_mkdir (p : path) : files_only (mkdir p).
Proof.
  intros w. unfold mkdir.
  destruct (lookup_node (files w) p) as [[|? ?]|]; try done.
  by destruct (lookup_node (files w) (parent p)) as [[|? ?]|].
Qed.

Lemma files_only_now : files_only now.
Proof. by intros w. Qed.

Lemma files_only_write_file (p : path) (data : file_data) :
  files_only (write_file p data).
Proof.
  intros w. unfold write_file.
  destruct (lookup_node (files w) p) as [[|? ?]|];
    try done; by destruct (lookup_node (files w) (parent p)) as [[|? ?]|].
Qed.

Lemma files_only_save_to_history (self : ResponseHandler) (user_id : Z)
                                 (query response : str) :
  files_only (_save_to_history self user_id query response).
Proof.
  unfold _save_to_history, get_user_history_dir, get_user_base_dir.
  repeat first
    [ apply files_only_try_except | apply files_only_bind | intros ?
    | apply files_only_mkdir | apply files_only_now
    | apply files_only_write_file | apply files_only_ret ].
Qed.

Lemma try_except_returns (m : M unit) (w : world) :
  (try_except m (fun _ => ret tt) w).1 = Return tt.
Proof. unfold try_except. by destruct (m w) as [[[]|e] w1]. Qed.

Lemma contains_nonempty (c : char) (s : str) : contains c s = true -> (1 <= len s)%Z.
Proof. destruct s; [done|]. unfold len. simpl. lia. Qed.

(** A text of at most 1000 characters is sent as one window. *)
Lemma send_text_chunks_single (chat_id : Z) (text : str) (w : world) :
  (1 <= len text <= 1000)%Z ->
  _send_text_chunks chat_id text w
  = (Return tt,
     World (files w) (clock w) (ticks w) (tmpdir w) (unicode w) (user_data w)
           (outbox w ++ [SendMessage chat_id (_prepare_text text)
                                     (Some (lit "Markdown")) None])).
Proof.
  intros Hlen. unfold _send_text_chunks, py_range.
  change (1000 =? 0)%Z with false. change (0 <? 1000)%Z with true.
  cbn match.
  assert (Hn : ((len text - 0 + 1000 - 1) / 1000 = 1)%Z).
  { symmetry. apply (Z.div_unique _ _ _ (len text - 1)); lia. }
  rewrite Hn. change (Z.to_nat 1) with 1%nat.
  unfold or_value_error. unfold bind at 1. unfold ret at 1.
  cbn [seq map].
  assert (Hs : slice text (0 + Z.of_nat 0 * 1000) (0 + Z.of_nat 0 * 1000 + 1000)
               = text).
  { rewrite slice_nonneg by lia. simpl. apply take_ge. unfold len in *. lia. }
  rewrite Hs. reflexivity.
Qed.

Lemma dispatch_mode_chunked (text : str) :
  dispatch_mode text = CHUNKED ->
  (len text <= 500)%Z /\ contains LF text = true.
Proof.
  unfold dispatch_mode, MAX_TEXT_RESPONSE.
  destruct (len text <=? 500)%Z eqn:E1;
    [|cbn [andb]; by destruct (len text <=? 1000)%Z].
  destruct (contains LF text) eqn:E2;
    [|cbn [andb]; by destruct (len text <=? 1000)%Z].
  intros _. split; [by apply Z.leb_le|done].
Qed.

Lemma process_response_run (self : ResponseHandler) (user_id chat_id : Z)
                           (response_text original_query : str) (w : world) :
  exists w',
    process_response self user_id chat_id response_text original_query w
    = (Return tt, w')
    /\ outbox w' = outbox w ++ [delivery chat_id response_text].
Proof.
  unfold process_response. unfold bind at 1 2 3.
  unfold set_user_data at 1 2.
  cbn [files clock ticks tmpdir unicode user_data outbox].
  match goal with
  | |- context [_save_to_history ?s ?u ?q ?r ?w1] =>
    pose proof (files_only_save_to_history s u q r w1) as [Hud Hob];
    pose proof (try_except_returns
                  (let* history_dir := get_user_history_dir (file_manager s) u in
                   let* d := now in
                   write_file
                     (history_dir ++ [lit "session_" ++ strftime_seconds d ++ lit ".txt"])
                     (TextData (lit "Вопрос (" ++ strftime_seconds d ++ lit "):"
                                ++ [LF] ++ q ++ [LF; LF]
                                ++ lit "Ответ:" ++ [LF] ++ r ++ [LF]
                                ++ repeat 45 50 ++ [LF]))) w1) as Hret;
    fold (_save_to_history s u q r) in Hret;
    destruct (_save_to_history s u q r w1) as [o w2]
  end.
  cbn [fst snd user_data outbox] in *. subst o.
  unfold delivery. destruct (dispatch_mode response_text) eqn:Emode.
  - (* CHUNKED *)
    apply dispatch_mode_chunked in Emode as [E1 E2].
    apply contains_nonempty in E2.
    rewrite send_text_chunks_single by lia.
    eexists. split; [reflexivity|]. cbn [outbox]. by rewrite Hob.
  - (* INLINE *)
    unfold send_message. eexists. split; [reflexivity|]. cbn [outbox].
    by rewrite Hob.
  - (* OFFERED *)
    unfold _offer_format_choice, bind, get_user_data. rewrite Hud.
    rewrite lookup_insert_ne by done. rewrite lookup_insert_eq.
    unfold send_message. eexists. split; [reflexivity|]. cbn [outbox].
    by rewrite Hob.
Qed.

(** C1, as the code has it.  The delivery mode depends on the length of the
    answer and on whether it holds a line break, and on nothing else: at most
    500 characters with a line break is CHUNKED, at most 500 characters
    without one is INLINE, more than 500 and at most 1000 is INLINE, more
    than 1000 is OFFERED.  So every 700-character answer, of one line or of
    two, is INLINE, and every 5000-character answer is OFFERED.
    [process_response] returns and hands the transport one message, set by
    the mode: the escaped answer for CHUNKED and INLINE, the offer with its
    keyboard for OFFERED. *)
Theorem dispatch_mode_by_length_and_newline :
  (forall t1 t2 : str,
     len t1 = len t2 -> contains LF t1 = contains LF t2 ->
     dispatch_mode t1 = dispatch_mode t2)
  /\ (forall t : str,
        ((len t <= 500)%Z -> contains LF t = true -> dispatch_mode t = CHUNKED)
        /\ ((len t <= 500)%Z -> contains LF t = false -> dispatch_mode t = INLINE)
        /\ ((500 < len t <= 1000)%Z -> dispatch_mode t = INLINE)
        /\ ((1000 < len t)%Z -> dispatch_mode t = OFFERED)
        /\ (len t = 700%Z -> dispatch_mode t = INLINE)
        /\ (len t = 5000%Z -> dispatch_mode t = OFFERED))
  /\ (forall (self : ResponseHandler) (user_id chat_id : Z)
             (response_text original_query : str) (w : world),
        exists w',
          process_response self user_id chat_id response_text original_query w
          = (Return tt, w')
          /\ outbox w' = outbox w ++ [delivery chat_id response_text]).
Proof.
  split; [|split].
  - intros t1 t2 Hl Hc. unfold dispatch_mode. by rewrite Hl, Hc.
  - intros t. unfold dispatch_mode, MAX_TEXT_RESPONSE.
    repeat split; intros H1; try intros H2; rewrite ?H2.
    + by rewrite (proj2 (Z.leb_le _ _) H1).
    + rewrite andb_false_r. by rewrite (proj2 (Z.leb_le _ _)) by lia.
    + rewrite (proj2 (Z.leb_gt _ _)) by lia.
      by rewrite (proj2 (Z.leb_le _ _)) by lia.
    + by rewrite !(proj2 (Z.leb_gt _ _)) by lia.
    + by rewrite H1.
    + by rewrite H1.
  - apply process_response_run.
Qed.

Lemma dispatch_mode_by_length_and_newline_witness :
  dispatch_mode two_line_300 = CHUNKED
  /\ dispatch_mode (repeat 97 300) = INLINE
  /\ dispatch_mode two_line_700 = INLINE
  /\ dispatch_mode (repeat 97 5000) = OFFERED
  /\ dispatch_mode (repeat 97 700) = dispatch_mode (repeat 98 700).
Proof.
  destruct dispatch_mode_by_length_and_newline as (Hdet & Hrules & _).
  split; [|split; [|split; [|split]]].
  - destruct (Hrules two_line_300) as (R & _).
    apply R; vm_compute; [discriminate|reflexivity].
  - destruct (Hrules (repeat 97 300)) as (_ & R & _).
    apply R; vm_compute; [discriminate|reflexivity].
  - destruct (Hrules two_line_700) as (_ & _ & R & _).
    apply R; vm_compute. split; [reflexivity|discriminate].
  - destruct (Hrules (repeat 97 5000)) as (_ & _ & _ & R & _).
    apply R; vm_compute. reflexivity.
  - apply Hdet; vm_compute; reflexivity.
Defined.

(** C1, as the claim states it, fails: a 700-character answer of two lines
    is longer than the short threshold of 500 and is delivered INLINE, not
    CHUNKED. *)
Lemma dispatch_700_two_lines_not_chunked :
  len two_line_700 = 700%Z
  /\ length (split_on LF two_line_700) = 2%nat
  /\ dispatch_mode two_line_700 = INLINE
  /\ dispatch_mode two_line_700 <> CHUNKED.
Proof. vm_compute. by repeat split. Qed.

(** C10. On the INLINE and on the CHUNKED path [process_response] returns
    and hands the transport exactly one message, whose text is the answer
    with a backslash put before every underscore, asterisk and backtick. *)
Theorem inline_and_chunked_text_is_escaped
        (self : ResponseHandler) (user_id chat_id : Z)
        (response_text original_query : str) (w : world) :
  dispatch_mode response_text = INLINE \/ dispatch_mode response_text = CHUNKED ->
  exists w',
    process_response self user_id chat_id response_text original_query w
    = (Return tt, w')
    /\ outbox w'
       = outbox w ++ [SendMessage chat_id (backslash_escaped response_text)
                                  (Some (lit "Markdown")) None].
Proof.
  intros Hmode.
  destruct (process_response_run self user_id chat_id response_text
                                 original_query w) as (w' & E & Hob).
  exists w'. split; [exact E|]. rewrite Hob. unfold delivery.
  rewrite prepare_text_escapes. by destruct Hmode as [-> | ->].
Qed.

Lemma inline_and_chunked_text_is_escaped_witness :
  (dispatch_mode (lit "a_b*c`d") = INLINE
   \/ dispatch_mode (lit "a_b*c`d") = CHUNKED)
  /\ exists w',
       process_response example_handler 7 42 (lit "a_b*c`d") (lit "q")
                        (example_world example_T0)
       = (Return tt, w')
       /\ outbox w'
          = outbox (example_world example_T0)
            ++ [SendMessage 42 (backslash_escaped (lit "a_b*c`d"))
                            (Some (lit "Markdown")) None].
Proof.
  assert (H : dispatch_mode (lit "a_b*c`d") = INLINE
              \/ dispatch_mode (lit "a_b*c`d") = CHUNKED)
    by (left; vm_compute; reflexivity).
  split; [exact H|].
  exact (inline_and_chunked_text_is_escaped
           example_handler 7 42 (lit "a_b*c`d") (lit "q")
           (example_world example_T0) H).
Defined.

Example escaped_example :
  backslash_escaped (lit "a_b*c`d") = [97; 92; 95; 98; 92; 42; 99; 92; 96; 100].
Proof. vm_compute. reflexivity. Qed.

Example chunked_example :
  outbox (process_response example_handler 7 42
            (lit "a_b" ++ [LF] ++ lit "c") (lit "q")
            (example_world example_T0)).2
  = [SendMessage 42 (lit "a\_b" ++ [LF] ++ lit "c") (Some (lit "Markdown")) None].
Proof. vm_compute. reflexivity. Qed.
